(** * HawkEye realtime dashboard: windowed analytics and log-stream relay

    A shallow embedding of

    - [frontend/src/components/LogStream.jsx]: the bounded window of the most
      recent log events and the aggregates recomputed from it ([stats],
      [endpoints], [threatLevel]);
    - [frontend/src/hooks/useLogStream.jsx]: the unbounded variant of the
      message handler;
    - [Apps/express/index.js]: the [/logs/cloudfront] route that proxies the
      Flask log stream to a dashboard client.

    JavaScript numbers are IEEE-754 binary64 values; they are modelled by
    Rocq's primitive floats, so that every arithmetic step rounds as it does
    in the browser. *)

From Stdlib Require Import ZArith List Floats Uint63 String Ascii Lia DecimalString.
From stdpp Require Import gmap strings list fin_maps.

Set Warnings "-inexact-float".

(* ===================================================================== *)
(** * Part I: definitions                                                 *)
(* ===================================================================== *)

(** ** JavaScript numbers, [Math] and [Number.prototype.toFixed] *)

Module JS.

Local Open Scope float_scope.

(** The length of an array as a Number (exact: lengths are below 2^32). *)
Definition num_of_nat (n : nat) : float :=
  PrimFloat.of_uint63 (Uint63.of_Z (Z.of_nat n)).

(** [ToBoolean] on a Number: [0], [-0] and [NaN] are falsy. *)
Definition truthy (x : float) : bool :=
  negb (PrimFloat.is_zero x || PrimFloat.is_nan x).

(** [a >= b] and [a > b] on Numbers ([false] as soon as one side is NaN). *)
Definition ge (a b : float) : bool := PrimFloat.leb b a.
Definition gt (a b : float) : bool := PrimFloat.ltb b a.

(** [Math.round x]: the integral Number closest to [x], ties towards
    +infinity; NaN, the infinities and both zeros are returned unchanged,
    and a negative [x] that rounds to zero gives [-0].

    The magnitude of a finite non-zero [x] is [m * 2^(ex - 2101 - 53)]
    with [m] the 53-bit integer mantissa ([frshiftexp] biases the exponent
    by 2101). With [k = 2101 + 53 - ex] fractional bits the result is
    [floor (m / 2^k + 1/2)] for a positive [x] and
    [- ceil (m / 2^k - 1/2)] for a negative one, computed on 63-bit
    integers ([m + 2^(k-1) < 2^54]). *)
Definition Math_round (x : float) : float :=
  if PrimFloat.is_nan x || PrimFloat.is_infinity x || PrimFloat.is_zero x then x
  else
    let neg := PrimFloat.ltb x 0 in
    let (fr, ex) := PrimFloat.frshiftexp (PrimFloat.abs x) in
    let m := PrimFloat.normfr_mantissa fr in
    if (2154 <=? ex)%uint63 then x
    else
      let k := (2154 - ex)%uint63 in
      if (54 <? k)%uint63 then (if neg then (-0) else 0)
      else
        let half := (1 << (k - 1))%uint63 in
        let r := (if neg then (m + half - 1) >> k else (m + half) >> k)%uint63 in
        if neg then - PrimFloat.of_uint63 r else PrimFloat.of_uint63 r.

(** [Math.min a b] for two arguments: NaN if either is NaN, and [-0] is
    smaller than [+0]. *)
Definition Math_min (a b : float) : float :=
  if PrimFloat.is_nan a || PrimFloat.is_nan b then nan
  else if PrimFloat.ltb a b then a
  else if PrimFloat.ltb b a then b
  else if PrimFloat.is_zero a && PrimFloat.get_sign a then a else b.

(** JavaScript values that the aggregates take: a Number, a String, or the
    String that [Number::toString] gives for a Number (kept symbolic; it
    only arises in [toFixed] for magnitudes of at least 10^21). *)
Inductive value : Type :=
| VNum (x : float)
| VStr (s : string)
| VNumToString (x : float).

(** The integer [n] for which [n / 10^f - |x|] is as close to zero as
    possible, the larger one on a tie (step 10.a of
    [Number.prototype.toFixed]), computed exactly from the mantissa and
    exponent of [x]. *)
Definition toFixed_digits (x : float) (f : nat) : Z :=
  match Prim2SF x with
  | S754_finite _ m e =>
      let p := (10 ^ Z.of_nat f)%Z in
      if (0 <=? e)%Z then (Z.pos m * 2 ^ e * p)%Z
      else ((2 * Z.pos m * p + 2 ^ (- e)) / 2 ^ (- e + 1))%Z
  | _ => 0%Z
  end.

Fixpoint zeros (n : nat) : string :=
  match n with
  | O => EmptyString
  | S n' => String "0"%char (zeros n')
  end.

(** Steps 10.b to 10.c: the decimal digits of [n], left-padded with zeros to
    [f + 1] characters, with a point before the last [f] of them. *)
Definition place_point (n : Z) (f : nat) : string :=
  let m := NilZero.string_of_uint (N.to_uint (Z.to_N n)) in
  match f with
  | O => m
  | S _ =>
      let k := String.length m in
      let m := if (k <=? f)%nat then String.append (zeros (f + 1 - k)) m else m in
      let k := String.length m in
      String.append (String.substring 0 (k - f) m)
        (String.append "." (String.substring (k - f) f m))
  end.

(** [x.toFixed(f)] for [0 <= f <= 100]. *)
Definition toFixed (x : float) (f : nat) : value :=
  if PrimFloat.is_nan x then VStr "NaN"
  else if PrimFloat.is_infinity x then
    VStr (if PrimFloat.ltb x 0 then "-Infinity" else "Infinity")
  else if PrimFloat.leb 1e21 (PrimFloat.abs x) then VNumToString x
  else
    let s := if PrimFloat.ltb x 0 then "-"%string else EmptyString in
    VStr (String.append s (place_point (toFixed_digits x f) f)).

End JS.

(** ** Plain objects used as maps from strings to Numbers

    [const endpointMap = {}] creates an ordinary object whose prototype is
    [Object.prototype]: reading a key that is not an own property falls
    through to the prototype. Own properties are kept in creation order. *)

Module Obj.

Definition t : Type := list (string * float).

(** The property names every plain object inherits from
    [Object.prototype]. All of them hold functions, except the accessor
    [__proto__], whose getter returns the prototype object. *)
Definition prototype_keys : list string :=
  [ "constructor"; "__defineGetter__"; "__defineSetter__"; "hasOwnProperty";
    "__lookupGetter__"; "__lookupSetter__"; "isPrototypeOf";
    "propertyIsEnumerable"; "toString"; "valueOf"; "__proto__";
    "toLocaleString" ]%string.

Definition inherited (k : string) : bool :=
  existsb (String.eqb k) prototype_keys.

(** What [o[k]] evaluates to. *)
Inductive got : Type :=
| GNum (x : float)      (* an own property, always a Number here *)
| GInherited            (* a function or object found on the prototype *)
| GUndefined.

Fixpoint own (o : t) (k : string) : option float :=
  match o with
  | [] => None
  | (k', v) :: o' => if String.eqb k k' then Some v else own o' k
  end.

Definition get (o : t) (k : string) : got :=
  match own o k with
  | Some x => GNum x
  | None => if inherited k then GInherited else GUndefined
  end.

(** [!o[k]]: objects and functions are truthy, [undefined] is falsy. *)
Definition falsy (g : got) : bool :=
  match g with
  | GNum x => negb (JS.truthy x)
  | GInherited => false
  | GUndefined => true
  end.

(** [ToNumber]: functions, objects and [undefined] convert to NaN. *)
Definition ToNumber (g : got) : float :=
  match g with
  | GNum x => x
  | GInherited | GUndefined => nan
  end.

Fixpoint update (o : t) (k : string) (v : float) : t :=
  match o with
  | [] => []
  | (k', v') :: o' =>
      if String.eqb k k' then (k', v) :: o' else (k', v') :: update o' k v
  end.

(** [o[k] = v] for a Number [v]: an own property is overwritten in place; a
    new key is appended, except [__proto__], whose inherited setter ignores
    a value that is neither an object nor null. *)
Definition set (o : t) (k : string) (v : float) : t :=
  match own o k with
  | Some _ => update o k v
  | None => if String.eqb k "__proto__" then o else o ++ [(k, v)]
  end.

(** Array indices: the canonical decimal strings of the integers below
    [2^32 - 1]. *)
Definition digit_of (c : ascii) : option N :=
  let n := N_of_ascii c in
  if ((48 <=? n) && (n <=? 57))%N then Some (n - 48)%N else None.

Fixpoint parse_digits (s : string) (acc : N) : option N :=
  match s with
  | EmptyString => Some acc
  | String c s' =>
      match digit_of c with
      | Some d => parse_digits s' (10 * acc + d)%N
      | None => None
      end
  end.

Definition array_index (k : string) : option N :=
  match k with
  | EmptyString => None
  | String "0"%char EmptyString => Some 0%N
  | String "0"%char _ => None
  | _ =>
      match parse_digits k 0 with
      | Some n => if (n <? 4294967295)%N then Some n else None
      | None => None
      end
  end.

Definition is_index (kv : string * float) : bool :=
  match array_index (fst kv) with Some _ => true | None => false end.

Definition index_of (kv : string * float) : N :=
  match array_index (fst kv) with Some n => n | None => 0%N end.

Fixpoint insert_index (e : string * float) (l : t) : t :=
  match l with
  | [] => [e]
  | e' :: l' =>
      if (index_of e <=? index_of e')%N then e :: l else e' :: insert_index e l'
  end.

Definition sort_index (l : t) : t := fold_right insert_index [] l.

(** [Object.entries o]: array-index keys in ascending numeric order, then
    the other keys in creation order. *)
Definition entries (o : t) : list (string * float) :=
  sort_index (List.filter is_index o)
  ++ List.filter (fun kv => negb (is_index kv)) o.

End Obj.

(** ** [LogStream.jsx]: the window and its aggregates *)

(** A parsed log event. Only the fields the aggregates read are kept; the
    producer's extension fields (request size, user id, anomaly score) are
    carried by the real objects but never read by [LogStream]. *)
Record Log : Type := mkLog {
  endpoint : string;
  status_code : float;
  latency_ms : float;
  timestamp : string
}.

(** [l.slice(-k)]: the last [k] elements, all of [l] when it is shorter. *)
Definition slice_last {A : Type} (k : nat) (l : list A) : list A :=
  drop (length l - k) l.

(** The state updater of [onmessage]:
    [(prevLogs) => [...prevLogs.slice(-99), newLog]]. *)
Definition ingest (prevLogs : list Log) (newLog : Log) : list Log :=
  slice_last 99 prevLogs ++ [newLog].

(** The window after a sequence of events has arrived, starting from
    [useState([])]. *)
Definition window_after (events : list Log) : list Log :=
  fold_left ingest events [].

Record Stats : Type := mkStats {
  avgLatency : JS.value;
  errorRate : JS.value;
  requestCount : JS.value
}.

Section Aggregates.

Local Open Scope float_scope.

Definition is_error (log : Log) : bool := JS.ge (status_code log) 400.
Definition is_slow (log : Log) : bool := JS.gt (latency_ms log) 300.

(** [const stats = useMemo(() => { ... }, [logs])] *)
Definition stats (logs : list Log) : Stats :=
  if (length logs =? 0)%nat then
    {| avgLatency := JS.VNum 0; errorRate := JS.VNum 0; requestCount := JS.VNum 0 |}
  else
    let totalLatency := fold_left (fun sum log => sum + latency_ms log) logs 0 in
    let errorCount := JS.num_of_nat (length (List.filter is_error logs)) in
    {| avgLatency := JS.toFixed (totalLatency / JS.num_of_nat (length logs)) 2;
       errorRate := JS.toFixed ((errorCount / JS.num_of_nat (length logs)) * 100) 1;
       requestCount := JS.VNum (JS.num_of_nat (length logs)) |}.

(** The body of the [forEach] in [endpoints]:
    [if (!endpointMap[log.endpoint]) endpointMap[log.endpoint] = 0;
     endpointMap[log.endpoint]++;] *)
Definition count_endpoint (endpointMap : Obj.t) (log : Log) : Obj.t :=
  let k := endpoint log in
  let m := if Obj.falsy (Obj.get endpointMap k) then Obj.set endpointMap k 0
           else endpointMap in
  Obj.set m k (Obj.ToNumber (Obj.get m k) + 1).

Definition endpointMap (logs : list Log) : Obj.t :=
  fold_left count_endpoint logs [].

(** [const endpoints = useMemo(() => { ... return Object.entries(endpointMap) }, [logs])] *)
Definition endpoints (logs : list Log) : list (string * float) :=
  Obj.entries (endpointMap logs).

End Aggregates.

(** [const threatLevel = useMemo(() => { ... }, [logs])]; its local constants
    keep their names inside the module. *)
Module Threat.

Local Open Scope float_scope.

Definition errorRate (logs : list Log) : float :=
  JS.num_of_nat (length (List.filter is_error logs)) / JS.num_of_nat (length logs).

Definition highLatencyRate (logs : list Log) : float :=
  JS.num_of_nat (length (List.filter is_slow logs)) / JS.num_of_nat (length logs).

Definition errorWeight : float := 0.6.
Definition latencyWeight : float := 0.4.

(** The weighted score before rounding and capping. *)
Definition weighted (logs : list Log) : float :=
  (errorRate logs * errorWeight + highLatencyRate logs * latencyWeight) * 100.

Definition threatLevel (logs : list Log) : float :=
  if (length logs =? 0)%nat then 0
  else JS.Math_min 100 (JS.Math_round (weighted logs)).

End Threat.

(** ** The [EventSource] and its listeners

    The browser delivers three kinds of events to the listeners that the
    effect installs. A listener that throws does not unwind into the event
    loop: the exception is reported on the console and the source stays as
    it was. A source on which [close()] was called delivers nothing more. *)

Inductive ReadyState : Type := CONNECTING | OPEN | CLOSED.

Inductive ESEvent : Type :=
| ESOpen
| ESMessage (data : string)
| ESError.

(** The outcome of running a listener. *)
Inductive completion (A : Type) : Type :=
| Normal (a : A)
| Throw (exn : string).
Arguments Normal {A} a.
Arguments Throw {A} exn.

Definition is_closed (r : ReadyState) : bool :=
  match r with CLOSED => true | _ => false end.

(** [Math.random()]: the engine's generator, an unknown sequence of Numbers
    read one after the other. *)
Record Rng : Type := mkRng { samples : nat -> float; drawn : nat }.

Definition Math_random (g : Rng) : float * Rng :=
  (samples g (drawn g), {| samples := samples g; drawn := S (drawn g) |}).

(** [l.map(x => f(x, Math.random()))], left to right. *)
Fixpoint map_random {A B : Type} (f : A -> float -> B) (l : list A) (g : Rng)
  : list B * Rng :=
  match l with
  | [] => ([], g)
  | x :: l' =>
      let (r, g1) := Math_random g in
      let (ys, g2) := map_random f l' g1 in
      (f x r :: ys, g2)
  end.

Module LogStream.

(** The component instance: the two [useState] cells, the three [useMemo]
    cells, and the [EventSource] with the console next to them. Arrays are
    compared by identity in a dependency list, so the [logs] array carries
    the reference it was allocated at. *)
Record State : Type := mkState {
  logs : list Log;
  logs_ref : nat;
  connected : bool;
  memo_stats : option (nat * Stats);
  memo_endpoints : option (nat * list (string * float));
  memo_threatLevel : option (nat * float);
  readyState : ReadyState;
  console : list string
}.

(** What one render shows: the header flag, the three aggregates, and the
    randomly generated demo scores of the anomaly chart (line and area)
    and of the endpoint heatmap. *)
Record View : Type := mkView {
  view_connected : bool;
  view_stats : Stats;
  view_endpoints : list (string * float);
  view_threatLevel : float;
  view_anomaly_line : list float;
  view_anomaly_area : list float;
  view_heatmap : list (string * float)
}.

Definition aggregates (v : View) : Stats * list (string * float) * float :=
  (view_stats v, view_endpoints v, view_threatLevel v).

(** [useState([])], [useState(false)], nothing memoised yet, the source
    still connecting. *)
Definition initial : State :=
  {| logs := []; logs_ref := 0; connected := false;
     memo_stats := None; memo_endpoints := None; memo_threatLevel := None;
     readyState := CONNECTING; console := [] |}.

(** [setLogs(updater)]: the updater builds a new array. *)
Definition setLogs (updater : list Log -> list Log) (st : State) : State :=
  {| logs := updater (logs st); logs_ref := S (logs_ref st);
     connected := connected st;
     memo_stats := memo_stats st; memo_endpoints := memo_endpoints st;
     memo_threatLevel := memo_threatLevel st;
     readyState := readyState st; console := console st |}.

Definition setConnected (b : bool) (st : State) : State :=
  {| logs := logs st; logs_ref := logs_ref st; connected := b;
     memo_stats := memo_stats st; memo_endpoints := memo_endpoints st;
     memo_threatLevel := memo_threatLevel st;
     readyState := readyState st; console := console st |}.

Definition console_error (msg : string) (st : State) : State :=
  {| logs := logs st; logs_ref := logs_ref st; connected := connected st;
     memo_stats := memo_stats st; memo_endpoints := memo_endpoints st;
     memo_threatLevel := memo_threatLevel st;
     readyState := readyState st; console := console st ++ [msg] |}.

Definition set_readyState (r : ReadyState) (st : State) : State :=
  {| logs := logs st; logs_ref := logs_ref st; connected := connected st;
     memo_stats := memo_stats st; memo_endpoints := memo_endpoints st;
     memo_threatLevel := memo_threatLevel st;
     readyState := r; console := console st |}.

(** [useMemo(() => f(logs), [logs])]: the cached value is returned when the
    dependency is the array it was computed for. *)
Definition useMemo {A : Type} (f : list Log -> A) (st : State)
    (cell : option (nat * A)) : A :=
  match cell with
  | Some (r, v) => if (r =? logs_ref st)%nat then v else f (logs st)
  | None => f (logs st)
  end.

Local Open Scope float_scope.

(** The demo score of one point of the anomaly chart:
    [Math.random() * 0.7 + (log.status_code >= 400 ? 0.3 : 0)]. *)
Definition anomaly_score (log : Log) (r : float) : float :=
  r * 0.7 + (if is_error log then 0.3 else 0).

(** One evaluation of the component function: the memoised aggregates
    first, then the JSX from top to bottom. *)
Definition render (st : State) (g : Rng) : View * State * Rng :=
  let s := useMemo stats st (memo_stats st) in
  let e := useMemo endpoints st (memo_endpoints st) in
  let t := useMemo Threat.threatLevel st (memo_threatLevel st) in
  let (line, g1) := map_random anomaly_score (logs st) g in
  let (area, g2) := map_random anomaly_score (logs st) g1 in
  let (heat, g3) := map_random (fun kv securityScore => (fst kv, securityScore)) e g2 in
  ({| view_connected := connected st; view_stats := s; view_endpoints := e;
      view_threatLevel := t; view_anomaly_line := line;
      view_anomaly_area := area; view_heatmap := heat |},
   {| logs := logs st; logs_ref := logs_ref st; connected := connected st;
      memo_stats := Some (logs_ref st, s);
      memo_endpoints := Some (logs_ref st, e);
      memo_threatLevel := Some (logs_ref st, t);
      readyState := readyState st; console := console st |},
   g3).


Section Listeners.

(** [JSON.parse] restricted to event records: [None] stands for the
    [SyntaxError] it throws on text that is not JSON. *)
Variable JSON_parse : string -> option Log.

(** [eventSource.onmessage] *)
Definition onmessage (data : string) (st : State) : completion State :=
  match JSON_parse data with
  | None => Throw "SyntaxError"
  | Some newLog => Normal (setLogs (fun prevLogs => ingest prevLogs newLog) st)
  end.

(** [eventSource.onopen] *)
Definition onopen (st : State) : completion State :=
  Normal (setConnected true st).

(** [eventSource.onerror] *)
Definition onerror (st : State) : completion State :=
  Normal (set_readyState CLOSED
            (setConnected false
               (console_error "Error occurred while streaming logs." st))).

(** The browser dispatching one event to its listener. *)
Definition dispatch (ev : ESEvent) (st : State) : State :=
  if is_closed (readyState st) then st
  else
    let r := match ev with
             | ESOpen => onopen (set_readyState OPEN st)
             | ESMessage data => onmessage data st
             | ESError => onerror st
             end in
    match r with
    | Normal st' => st'
    | Throw exn => console_error (String.append "Uncaught " exn) st
    end.

(** React renders again when a state cell changed. *)
Definition changed (st st' : State) : bool :=
  negb ((logs_ref st =? logs_ref st')%nat && Bool.eqb (connected st) (connected st')).

Definition step (ev : ESEvent) (c : State * Rng) : State * Rng :=
  let st' := dispatch ev (fst c) in
  if changed (fst c) st' then
    let '(_, st'', g') := render st' (snd c) in (st'', g')
  else (st', snd c).

(** Mounting renders once, then events arrive. *)
Definition mount (g : Rng) : State * Rng :=
  let '(_, st, g') := render initial g in (st, g').

Definition run_from (evs : list ESEvent) (c : State * Rng) : State * Rng :=
  fold_left (fun c ev => step ev c) evs c.

Definition run (evs : list ESEvent) (g : Rng) : State * Rng :=
  run_from evs (mount g).

End Listeners.

End LogStream.

(** ** [useLogStream.jsx]: the hook keeps every event *)

Module UseLogStream.

Record State : Type := mkState {
  logs : list Log;
  error : option string;
  loading : bool;
  readyState : ReadyState;
  console : list string
}.

(** The state once the effect has run: [setLoading(false)]. *)
Definition initial : State :=
  {| logs := []; error := None; loading := false;
     readyState := CONNECTING; console := [] |}.

Section Listeners.

Variable JSON_parse : string -> option Log.

(** [eventSource.onmessage]: [setLogs((prevLogs) => [...prevLogs, newLog])] *)
Definition onmessage (data : string) (st : State) : completion State :=
  match JSON_parse data with
  | None => Throw "SyntaxError"
  | Some newLog =>
      Normal {| logs := logs st ++ [newLog]; error := error st;
                loading := loading st; readyState := readyState st;
                console := console st |}
  end.

(** [eventSource.onerror] *)
Definition onerror (st : State) : completion State :=
  Normal {| logs := logs st; error := Some "Error connecting to log stream"%string;
            loading := loading st; readyState := CLOSED;
            console := console st |}.

Definition dispatch (ev : ESEvent) (st : State) : State :=
  if is_closed (readyState st) then st
  else
    let r := match ev with
             | ESOpen =>
                 Normal {| logs := logs st; error := error st;
                           loading := loading st; readyState := OPEN;
                           console := console st |}
             | ESMessage data => onmessage data st
             | ESError => onerror st
             end in
    match r with
    | Normal st' => st'
    | Throw exn =>
        {| logs := logs st; error := error st; loading := loading st;
           readyState := readyState st;
           console := console st ++ [String.append "Uncaught " exn] |}
    end.

Definition run (evs : list ESEvent) (st : State) : State :=
  fold_left (fun st ev => dispatch ev st) evs st.

End Listeners.

End UseLogStream.

(** ** [Apps/express/index.js]: the [/logs/cloudfront] route

    Every [GET /logs/cloudfront] runs the route handler once. The handler
    awaits its own [axios] request for the Flask stream and then installs
    three listeners that close over this request's [req], [res], [span] and
    [axiosResponse]. The model keeps one [Session] per request, keyed by the
    request id that the middleware assigns, and steps on the events that
    Node delivers. *)

Module Relay.

(** The upstream side of a session: the pending [axios] call, then the
    readable stream [axiosResponse.data]. *)
Inductive Upstream : Type :=
| Pending        (* [await axios(...)] has not settled *)
| Live           (* streaming *)
| Destroyed      (* [axiosResponse.data.destroy()] was called *)
| Errored        (* the stream emitted ['error'] *)
| Ended          (* the stream emitted ['end'] *)
| Unreachable.   (* the [axios] call was rejected *)

(** The subscriber side: the response [res]. *)
Inductive Response : Type :=
| Writable       (* open, [res.write] delivers *)
| Finished       (* [res.end()] or [res.send()] completed the response *)
| Disconnected.  (* the client went away *)

Record Session : Type := mkSession {
  upstream : Upstream;
  listening : bool;             (* the three listeners are installed *)
  res : Response;
  res_status : nat;
  res_body : list string;       (* what was written to [res], in order *)
  span_ended : bool;
  span_exceptions : list string
}.

Inductive LogLine : Type :=
| Info (message : string) (requestId : nat)
| Error (message : string) (requestId : nat) (error : string).

Record State : Type := mkState {
  sessions : gmap nat Session;
  next_id : nat;                (* fresh request ids, for [uuidv4()] *)
  axios_calls : nat;            (* upstream connections requested so far *)
  logger : list LogLine
}.

Inductive Event : Type :=
| Request                                  (* GET /logs/cloudfront *)
| AxiosResolved (id : nat)
| AxiosRejected (id : nat) (message : string)
| UpstreamData (id : nat) (chunk : string)
| UpstreamError (id : nat) (message : string)
| UpstreamEnd (id : nat)
| ClientClose (id : nat).

(** The session an event is delivered to; a new request has none yet. *)
Definition target (ev : Event) : option nat :=
  match ev with
  | Request => None
  | AxiosResolved id | AxiosRejected id _ | UpstreamData id _
  | UpstreamError id _ | UpstreamEnd id | ClientClose id => Some id
  end.

Definition initial : State :=
  {| sessions := ∅; next_id := 0; axios_calls := 0; logger := [] |}.

Definition is_live (u : Upstream) : bool :=
  match u with Live => true | _ => false end.

Definition is_writable (r : Response) : bool :=
  match r with Writable => true | _ => false end.

(** [res.write(chunk)] *)
Definition res_write (chunk : string) (s : Session) : Session :=
  if is_writable (res s) then
    {| upstream := upstream s; listening := listening s; res := res s;
       res_status := res_status s; res_body := res_body s ++ [chunk];
       span_ended := span_ended s; span_exceptions := span_exceptions s |}
  else s.

(** [res.end()] *)
Definition res_end (s : Session) : Session :=
  if is_writable (res s) then
    {| upstream := upstream s; listening := listening s; res := Finished;
       res_status := res_status s; res_body := res_body s;
       span_ended := span_ended s; span_exceptions := span_exceptions s |}
  else s.

(** [res.status(code).send(body)] *)
Definition res_status_send (code : nat) (body : string) (s : Session) : Session :=
  if is_writable (res s) then
    {| upstream := upstream s; listening := listening s; res := Finished;
       res_status := code; res_body := res_body s ++ [body];
       span_ended := span_ended s; span_exceptions := span_exceptions s |}
  else s.

Definition set_upstream (u : Upstream) (s : Session) : Session :=
  {| upstream := u; listening := listening s; res := res s;
     res_status := res_status s; res_body := res_body s;
     span_ended := span_ended s; span_exceptions := span_exceptions s |}.

Definition span_recordException (e : string) (s : Session) : Session :=
  {| upstream := upstream s; listening := listening s; res := res s;
     res_status := res_status s; res_body := res_body s;
     span_ended := span_ended s; span_exceptions := span_exceptions s ++ [e] |}.

Definition span_end (s : Session) : Session :=
  {| upstream := upstream s; listening := listening s; res := res s;
     res_status := res_status s; res_body := res_body s;
     span_ended := true; span_exceptions := span_exceptions s |}.

(** The session of a request whose handler has reached [await axios(...)]:
    headers set, span started, nothing written. *)
Definition new_session : Session :=
  {| upstream := Pending; listening := false; res := Writable;
     res_status := 200; res_body := [];
     span_ended := false; span_exceptions := [] |}.

(** What one event does to the session it is delivered to, and what it
    logs. [None]: no listener runs. *)
Definition deliver (id : nat) (ev : Event) (s : Session)
  : option (Session * list LogLine) :=
  match ev with
  | Request => None
  | AxiosResolved _ =>
      match upstream s with
      | Pending =>
          Some ({| upstream := Live; listening := true; res := res s;
                   res_status := res_status s; res_body := res_body s;
                   span_ended := span_ended s;
                   span_exceptions := span_exceptions s |}, [])
      | _ => None
      end
  | AxiosRejected _ message =>
      match upstream s with
      | Pending =>
          Some (res_status_send 500 "Error connecting to log stream"
                  (span_end (span_recordException message
                               (set_upstream Unreachable s))),
                [Error "Failed to connect to Flask log stream" id message])
      | _ => None
      end
  | UpstreamData _ chunk =>
      if listening s && is_live (upstream s)
      then Some (res_write chunk s, [])
      else None
  | UpstreamError _ message =>
      if listening s && is_live (upstream s)
      then Some (res_end (span_end (span_recordException message
                                      (set_upstream Errored s))),
                 [Error "Error in log stream" id message])
      else None
  | UpstreamEnd _ =>
      if listening s && is_live (upstream s)
      then Some (set_upstream Ended s, [])
      else None
  | ClientClose _ =>
      match res s with
      | Disconnected => None
      | _ =>
          let s1 := {| upstream := upstream s; listening := listening s;
                       res := Disconnected; res_status := res_status s;
                       res_body := res_body s; span_ended := span_ended s;
                       span_exceptions := span_exceptions s |} in
          if listening s then
            Some (span_end (set_upstream
                              (if is_live (upstream s) then Destroyed
                               else upstream s) s1),
                  [Info "Client disconnected from log stream" id])
          else Some (s1, [])
      end
  end.

Definition step (ev : Event) (st : State) : State :=
  match target ev with
  | None =>
      {| sessions := <[next_id st := new_session]> (sessions st);
         next_id := S (next_id st);
         axios_calls := S (axios_calls st);
         logger := logger st ++ [Info "Incoming request" (next_id st)] |}
  | Some id =>
      match sessions st !! id with
      | None => st
      | Some s =>
          match deliver id ev s with
          | None => st
          | Some (s', lines) =>
              {| sessions := <[id := s']> (sessions st);
                 next_id := next_id st;
                 axios_calls := axios_calls st;
                 logger := logger st ++ lines |}
          end
      end
  end.

Definition run (evs : list Event) (st : State) : State :=
  fold_left (fun st ev => step ev st) evs st.

(** The upstream connections that are streaming. *)
Definition live_upstreams (st : State) : nat :=
  length (List.filter (fun kv => is_live (upstream (snd kv)))
            (map_to_list (sessions st))).

Definition is_request (ev : Event) : bool :=
  match ev with Request => true | _ => false end.

(** The subscriber requests among the events. *)
Definition count_requests (evs : list Event) : nat :=
  length (List.filter is_request evs).

(** What subscriber [id] has received. *)
Definition received (st : State) (id : nat) : list string :=
  match sessions st !! id with
  | Some s => res_body s
  | None => []
  end.


(** Request ids are handed out in order, one session and one [axios] call
    for each. *)
Definition relay_inv (st : State) : Prop :=
  (forall id, next_id st <= id -> sessions st !! id = None)
  /\ size (sessions st) = next_id st
  /\ axios_calls st = next_id st.

End Relay.

(** The two-event window of the specification's scenario: one error, one
    slow request, threat score 50. *)
Definition scenario_window : list Log :=
  [ mkLog "/a" 200 50 "2025-01-01T00:00:00Z";
    mkLog "/a" 500 400 "2025-01-01T00:00:01Z" ].


(** Every value that [LogStream] derives from the window: the three fields
    of [stats], the threat level, and the count of each endpoint. *)
Definition exposed (logs : list Log) : list JS.value :=
  [ avgLatency (stats logs); errorRate (stats logs); requestCount (stats logs);
    JS.VNum (Threat.threatLevel logs) ]
  ++ map (fun kv => JS.VNum (snd kv)) (endpoints logs).

(** ** Evaluating the aggregates for every window size

    The aggregates read the window only through its length and the number of
    events that pass a filter. A window holds at most a hundred events, so a
    property of the floating-point results can be decided by evaluating them
    for every such pair or triple of counts. *)

Module Counts.

Local Open Scope float_scope.


Definition rate (c n : nat) : float := JS.num_of_nat c / JS.num_of_nat n.

(** The weighted score of a window of [n] events, [e] of them errors and [h]
    of them slow. *)
Definition weighted (n e h : nat) : float :=
  (rate e n * Threat.errorWeight + rate h n * Threat.latencyWeight) * 100.


(** The decimal digits of a natural number. *)
Definition digits (z : Z) : string :=
  NilZero.string_of_uint (N.to_uint (Z.to_N z)).

(** [d] tenths written with one decimal: 125 gives "12.5". *)
Definition one_decimal (d : Z) : string :=
  String.append (digits (d / 10)) (String.append "." (digits (d mod 10))).

(** The error percentage of a window of [n] events, [e] of them errors, as
    [stats] computes it before [toFixed(1)]. *)
Definition percentage (n e : nat) : float := rate e n * 100.

(** The string shown is [d] tenths for an integer [0 <= d <= 1000] at most
    half a tenth away from the exact percentage [100 * e / n]. *)
Definition percentage_ok (n e : nat) : bool :=
  let d := JS.toFixed_digits (percentage n e) 1 in
  match JS.toFixed (percentage n e) 1 with
  | JS.VStr s => String.eqb s (one_decimal d)
  | _ => false
  end
  && (0 <=? d)%Z && (d <=? 1000)%Z
  && (2 * Z.abs (d * Z.of_nat n - 1000 * Z.of_nat e) <=? Z.of_nat n)%Z.



(** [P n e] for every [1 <= n <= 100] and [e <= n]. *)
Definition for_pairs (P : nat -> nat -> bool) : bool :=
  forallb (fun n => forallb (P n) (seq 0 (S n))) (seq 1 100).

End Counts.

(** ** Notions used to state and prove the properties *)



(** A memo cell is sound when it is stale or holds the value of its function
    on the current window. References only grow, so a stale cell never
    becomes current again. *)
Definition cell_ok {A : Type} (f : list Log -> A) (st : LogStream.State)
    (cell : option (nat * A)) : Prop :=
  match cell with
  | Some (r, v) =>
      r <= LogStream.logs_ref st
      /\ (r = LogStream.logs_ref st -> v = f (LogStream.logs st))
  | None => True
  end.

Definition memo_ok (st : LogStream.State) : Prop :=
  cell_ok stats st (LogStream.memo_stats st)
  /\ cell_ok endpoints st (LogStream.memo_endpoints st)
  /\ cell_ok Threat.threatLevel st (LogStream.memo_threatLevel st).

(** The three aggregates computed afresh. *)
Definition recomputed (logs : list Log) : Stats * list (string * float) * float :=
  (stats logs, endpoints logs, Threat.threatLevel logs).

(** *** Concrete inputs *)

(** A decoder that accepts a single text, standing for the JSON of one
    event, and rejects every other; two generators that always answer the
    same Number. *)
Definition one_message_parser (text : string) : option Log :=
  if String.eqb text "event" then Some (mkLog "/a" 200 50 "2025-01-01T00:00:00Z")
  else None.

Definition constant_rng : Rng := {| samples := fun _ => 0.5%float; drawn := 0 |}.

Definition quarter_rng : Rng := {| samples := fun _ => 0.25%float; drawn := 7 |}.


(** ** Further notions about the relay *)

(** The chunks that the events carry for the upstream of session [id], in
    the order they arrive. *)
Definition chunks_for (id : nat) (evs : list Relay.Event) : list string :=
  flat_map (fun ev => match ev with
                      | Relay.UpstreamData i chunk =>
                          if (i =? id)%nat then [chunk] else []
                      | _ => []
                      end) evs.

(** Among the events, those delivered to session [id] are chunks of its
    upstream, nothing else. *)
Definition only_chunks_for (id : nat) (evs : list Relay.Event) : Prop :=
  forall ev, In ev evs -> Relay.target ev = Some id ->
             exists chunk, ev = Relay.UpstreamData id chunk.

(** None of the events is delivered to session [id]. *)
Definition none_for (id : nat) (evs : list Relay.Event) : Prop :=
  forall ev, In ev evs -> Relay.target ev <> Some id.

(** The upstream of session [id] neither ends nor fails among the events. *)
Definition upstream_goes_on (id : nat) (evs : list Relay.Event) : Prop :=
  forall ev, In ev evs ->
             ev <> Relay.UpstreamEnd id
             /\ forall message, ev <> Relay.UpstreamError id message.

(** ** Further notions about the dashboard *)

(** The rows of the log table, [logs.slice().reverse()]: a reversed copy,
    the window itself is not touched. *)
Definition table_rows (logs : list Log) : list Log := rev logs.

(* ===================================================================== *)
(** * Part II: properties                                                 *)
(* ===================================================================== *)

(** ** The window keeps the most recent hundred events *)

Section Window.

Context {A : Type}.
Implicit Types (l m : list A) (k : nat).

Lemma slice_last_length k l : length (slice_last k l) = min k (length l).
Proof. unfold slice_last. rewrite length_drop. lia. Qed.

Lemma slice_last_short k l : length l <= k -> slice_last k l = l.
Proof.
  intros H. unfold slice_last.
  replace (length l - k) with 0 by lia. reflexivity.
Qed.

(** Appending one element after keeping [k] is keeping [k + 1] of the
    extended list. *)
Lemma slice_last_snoc k l x :
  slice_last k l ++ [x] = slice_last (S k) (l ++ [x]).
Proof.
  unfold slice_last. rewrite length_app. simpl.
  replace (length l + 1 - S k) with (length l - k) by lia.
  rewrite drop_app_le by lia. reflexivity.
Qed.

(** Trimming early does not change what survives a later trim. *)
Lemma slice_last_app_idem k l m :
  slice_last k (slice_last k l ++ m) = slice_last k (l ++ m).
Proof.
  destruct (Nat.le_gt_cases (length l) k) as [Hle | Hgt].
  - rewrite (slice_last_short k l) by assumption. reflexivity.
  - unfold slice_last at 1 3.
    rewrite !length_app, slice_last_length.
    replace (min k (length l) + length m - k) with (length m) by lia.
    unfold slice_last.
    replace (length l + length m - k) with (length l - k + length m) by lia.
    rewrite <- drop_drop.
    rewrite (drop_app_le l m (length l - k)) by lia.
    reflexivity.
Qed.

End Window.

Lemma ingest_slice (w : list Log) (x : Log) :
  ingest w x = slice_last 100 (w ++ [x]).
Proof. unfold ingest. apply slice_last_snoc. Qed.

Lemma window_after_snoc (events : list Log) (x : Log) :
  window_after (events ++ [x]) = ingest (window_after events) x.
Proof. unfold window_after. rewrite fold_left_app. reflexivity. Qed.

Lemma window_after_slice (events : list Log) :
  window_after events = slice_last 100 events.
Proof.
  induction events as [| x events IH] using rev_ind.
  - reflexivity.
  - rewrite window_after_snoc, ingest_slice, IH.
    apply slice_last_app_idem.
Qed.

Lemma window_after_bounded (events : list Log) :
  length (window_after events) <= 100.
Proof. rewrite window_after_slice, slice_last_length. lia. Qed.

(** C1. After [N] events have been ingested, the window holds
    [min N 100] events, and they are the last [min N 100] events that
    arrived, in arrival order: the older ones were evicted first. *)
Theorem window_most_recent (events : list Log) :
  let N := length events in
  length (window_after events) = min N 100
  /\ window_after events = drop (N - min N 100) events.
Proof.
  cbv zeta. rewrite window_after_slice. split.
  - rewrite slice_last_length. lia.
  - unfold slice_last. f_equal. lia.
Qed.

(** ** The empty window *)

(** C6. With no event in the window (as when the component has just been
    mounted) the aggregates are zero and the endpoint mapping is empty;
    nothing is divided by the empty length. *)
Theorem empty_window_aggregates :
  LogStream.logs LogStream.initial = []
  /\ avgLatency (stats []) = JS.VNum 0
  /\ errorRate (stats []) = JS.VNum 0
  /\ requestCount (stats []) = JS.VNum 0
  /\ Threat.threatLevel [] = 0%float
  /\ endpointMap [] = []
  /\ endpoints [] = [].
Proof. repeat split. Qed.

(** The scenario of the specification: two events on [/a], one of them a
    slow error. *)
Example scenario_aggregates :
  Threat.errorRate scenario_window = 0.5%float
  /\ Threat.highLatencyRate scenario_window = 0.5%float
  /\ Threat.threatLevel scenario_window = 50%float
  /\ endpoints scenario_window = [("/a"%string, 2%float)]
  /\ stats scenario_window
     = {| avgLatency := JS.VStr "225.00"; errorRate := JS.VStr "50.0";
          requestCount := JS.VNum 2 |}.
Proof. repeat split. Qed.

(** ** The threat score *)


Lemma for_pairs_spec (P : nat -> nat -> bool) :
  Counts.for_pairs P = true ->
  forall n e, 1 <= n <= 100 -> e <= n -> P n e = true.
Proof.
  unfold Counts.for_pairs. intros H n e Hn He.
  rewrite forallb_forall in H.
  specialize (H n ltac:(apply in_seq; lia)).
  rewrite forallb_forall in H.
  apply H, in_seq. lia.
Qed.


Lemma filter_length_le {A : Type} (f : A -> bool) (l : list A) :
  length (List.filter f l) <= length l.
Proof.
  induction l as [| x l IH]; simpl; [lia |].
  destruct (f x); simpl; lia.
Qed.

Lemma length_zero_eqb {A : Type} (l : list A) :
  l <> [] -> (length l =? 0)%nat = false.
Proof. destruct l; [congruence | reflexivity]. Qed.




(** ** The error rate shown by [stats] *)

Lemma percentage_table : Counts.for_pairs Counts.percentage_ok = true.
Proof. vm_cast_no_check (eq_refl true). Qed.

(** C7, the part that fails. In a window holding one failed request the raw
    error ratio is 1, which would read "1.00" with two decimals; the values
    that the component derives are "50.00" (average latency), "100.0" (error
    percentage), 1 (request count), 60 (threat level) and 1 (endpoint
    count): the ratio rounded to two decimals is not among them. *)
Lemma error_ratio_two_decimals_absent :
  let w := [mkLog "/a" 500 50 "2025-01-01T00:00:00Z"] in
  JS.toFixed (Threat.errorRate w) 2 = JS.VStr "1.00"
  /\ exposed w = [ JS.VStr "50.00"; JS.VStr "100.0"; JS.VNum 1; JS.VNum 60; JS.VNum 1 ]
  /\ ~ In (JS.toFixed (Threat.errorRate w) 2) (exposed w).
Proof.
  cbv zeta.
  assert (H1 : JS.toFixed (Threat.errorRate [mkLog "/a" 500 50 "2025-01-01T00:00:00Z"]) 2
               = JS.VStr "1.00") by (vm_compute; reflexivity).
  assert (H2 : exposed [mkLog "/a" 500 50 "2025-01-01T00:00:00Z"]
               = [ JS.VStr "50.00"; JS.VStr "100.0"; JS.VNum 1; JS.VNum 60; JS.VNum 1 ])
    by (vm_compute; reflexivity).
  split; [exact H1 |]. split; [exact H2 |].
  rewrite H1, H2. simpl. intros H.
  repeat (destruct H as [H | H]; [discriminate H |]). exact H.
Qed.

(** C7, as the code has it. For every non-empty window the error rate of
    [stats] is the percentage [count(status_code >= 400) / len * 100] written
    with exactly one decimal: the string reads [d] tenths, with [d] an
    integer between 0 and 1000 that is within half a tenth of the exact
    percentage. *)
Theorem error_rate_one_decimal (logs : list Log) :
  logs <> [] -> length logs <= 100 ->
  let n := length logs in
  let e := length (List.filter is_error logs) in
  errorRate (stats logs)
  = JS.toFixed (JS.num_of_nat e / JS.num_of_nat n * 100)%float 1
  /\ exists d : Z,
       errorRate (stats logs) = JS.VStr (Counts.one_decimal d)
       /\ (0 <= d <= 1000)%Z
       /\ (2 * Z.abs (d * Z.of_nat n - 1000 * Z.of_nat e) <= Z.of_nat n)%Z.
Proof.
  intros Hne Hlen n e.
  assert (Hstats : errorRate (stats logs) = JS.toFixed (Counts.percentage n e) 1).
  { unfold stats. rewrite length_zero_eqb by assumption. reflexivity. }
  split; [exact Hstats |].
  assert (Hn : 1 <= n <= 100) by (subst n; destruct logs; simpl in *; [congruence | lia]).
  pose proof (for_pairs_spec _ percentage_table n e Hn (filter_length_le _ _)) as H.
  unfold Counts.percentage_ok in H. cbv zeta in H.
  rewrite !Bool.andb_true_iff in H.
  destruct H as [[[Hs H0] H1000] Hclose].
  exists (JS.toFixed_digits (Counts.percentage n e) 1).
  rewrite Hstats.
  destruct (JS.toFixed (Counts.percentage n e) 1) as [| s |]; try discriminate Hs.
  apply String.eqb_eq in Hs. subst s.
  apply Z.leb_le in H0, H1000, Hclose.
  repeat split; assumption.
Qed.

Lemma error_rate_one_decimal_witness :
  scenario_window <> [] /\ length scenario_window <= 100
  /\ errorRate (stats scenario_window) = JS.VStr "50.0"
  /\ exists d : Z,
       errorRate (stats scenario_window) = JS.VStr (Counts.one_decimal d)
       /\ (0 <= d <= 1000)%Z
       /\ (2 * Z.abs (d * 2 - 1000 * 1) <= 2)%Z.
Proof.
  assert (H1 : scenario_window <> []) by discriminate.
  assert (H2 : length scenario_window <= 100) by (simpl; lia).
  split; [exact H1 |]. split; [exact H2 |]. split; [reflexivity |].
  exact (proj2 (error_rate_one_decimal scenario_window H1 H2)).
Defined.

(** ** Endpoint counts *)

(** *** Own properties of a plain object *)

Section ObjFacts.

Implicit Types (o : Obj.t) (k : string) (v : float).





Lemma own_In o k v : Obj.own o k = Some v -> In (k, v) o.
Proof.
  induction o as [| [k1 v1] o IH]; simpl; [discriminate |].
  destruct (String.eqb_spec k k1) as [-> | Hk].
  - intros [= ->]. now left.
  - intros H. right. exact (IH H).
Qed.





End ObjFacts.

(** *** One step of the counting loop *)










(** *** [Object.entries] lists every own property once *)





(** *** Counting over distinct keys *)











(** A request path is never a name inherited from [Object.prototype]. *)
Lemma request_path_not_inherited (path : string) :
  Obj.inherited (String "/"%char path) = false.
Proof. reflexivity. Qed.

(** ** Messages that do not decode *)

Section Decode.

Variable JSON_parse : string -> option Log.






Lemma render_keeps_window (st : LogStream.State) (g : Rng) :
  LogStream.logs (snd (fst (LogStream.render st g))) = LogStream.logs st
  /\ LogStream.readyState (snd (fst (LogStream.render st g)))
     = LogStream.readyState st.
Proof.
  unfold LogStream.render.
  repeat match goal with
         | |- context [map_random ?f ?l ?g] => destruct (map_random f l g)
         end.
  split; reflexivity.
Qed.

(** A message that parses is ingested. *)
Lemma message_step (data : string) (newLog : Log) (c : LogStream.State * Rng) :
  JSON_parse data = Some newLog ->
  LogStream.readyState (fst c) <> CLOSED ->
  LogStream.logs (fst (LogStream.step JSON_parse (ESMessage data) c))
  = ingest (LogStream.logs (fst c)) newLog
  /\ LogStream.readyState (fst (LogStream.step JSON_parse (ESMessage data) c))
     = LogStream.readyState (fst c).
Proof.
  intros Hp Hopen. destruct c as [st g]. simpl in *.
  unfold LogStream.step, LogStream.dispatch, LogStream.onmessage. simpl.
  rewrite Hp.
  assert (Hc : is_closed (LogStream.readyState st) = false)
    by (destruct (LogStream.readyState st); [reflexivity | reflexivity | congruence]).
  rewrite Hc.
  destruct (LogStream.changed _ _).
  - pose proof (render_keeps_window
                  (LogStream.setLogs (fun prevLogs => ingest prevLogs newLog) st) g)
      as [Hl Hr].
    destruct (LogStream.render _ _) as [[v s'] g']. simpl in *. split; assumption.
  - split; reflexivity.
Qed.

(** The window of the component after a run of well-formed messages is the
    window computed by [window_after] from the events they carry. *)
Lemma messages_fill_window (datas : list string) (events : list Log)
    (c : LogStream.State * Rng) :
  Forall2 (fun data ev => JSON_parse data = Some ev) datas events ->
  LogStream.readyState (fst c) <> CLOSED ->
  LogStream.logs (fst (LogStream.run_from JSON_parse (map ESMessage datas) c))
  = fold_left ingest events (LogStream.logs (fst c)).
Proof.
  intros H. revert c. induction H as [| data ev datas events Hp _ IH]; intros c Hopen.
  - reflexivity.
  - simpl. destruct (message_step data ev c Hp Hopen) as [Hl Hr].
    rewrite IH by congruence. now rewrite Hl.
Qed.





End Decode.


(** ** The aggregates are functions of the window alone *)

Section Memo.

Variable JSON_parse : string -> option Log.

Lemma useMemo_pure {A : Type} (f : list Log -> A) (st : LogStream.State)
    (cell : option (nat * A)) :
  cell_ok f st cell -> LogStream.useMemo f st cell = f (LogStream.logs st).
Proof.
  unfold LogStream.useMemo, cell_ok. destruct cell as [[r v] |]; [| reflexivity].
  intros [_ H]. destruct (Nat.eqb_spec r (LogStream.logs_ref st)); auto.
Qed.

Lemma render_aggregates (st : LogStream.State) (g : Rng) :
  memo_ok st ->
  LogStream.aggregates (fst (fst (LogStream.render st g)))
  = recomputed (LogStream.logs st).
Proof.
  intros (Hs & He & Ht). unfold LogStream.render.
  rewrite (useMemo_pure _ _ _ Hs), (useMemo_pure _ _ _ He), (useMemo_pure _ _ _ Ht).
  repeat match goal with
         | |- context [map_random ?f ?l ?g] => destruct (map_random f l g)
         end.
  reflexivity.
Qed.

Lemma render_memo_ok (st : LogStream.State) (g : Rng) :
  memo_ok st ->
  memo_ok (snd (fst (LogStream.render st g)))
  /\ LogStream.logs (snd (fst (LogStream.render st g))) = LogStream.logs st.
Proof.
  intros (Hs & He & Ht). unfold LogStream.render.
  rewrite (useMemo_pure _ _ _ Hs), (useMemo_pure _ _ _ He), (useMemo_pure _ _ _ Ht).
  repeat match goal with
         | |- context [map_random ?f ?l ?g] => destruct (map_random f l g)
         end.
  unfold memo_ok, cell_ok. simpl. repeat split; reflexivity.
Qed.

Lemma cell_ok_setLogs {A : Type} (f : list Log -> A) (u : list Log -> list Log)
    (st : LogStream.State) (cell : option (nat * A)) :
  cell_ok f st cell -> cell_ok f (LogStream.setLogs u st) cell.
Proof.
  unfold cell_ok. destruct cell as [[r v] |]; [| trivial].
  simpl. intros [Hle _]. split; lia.
Qed.

Lemma dispatch_memo_ok (ev : ESEvent) (st : LogStream.State) :
  memo_ok st -> memo_ok (LogStream.dispatch JSON_parse ev st).
Proof.
  intros H. unfold LogStream.dispatch.
  destruct (is_closed (LogStream.readyState st)); [assumption |].
  destruct ev as [| data |]; simpl; try exact H.
  unfold LogStream.onmessage. destruct (JSON_parse data); [| exact H].
  destruct H as (Hs & He & Ht).
  repeat split; apply cell_ok_setLogs; assumption.
Qed.

Lemma step_memo_ok (ev : ESEvent) (c : LogStream.State * Rng) :
  memo_ok (fst c) -> memo_ok (fst (LogStream.step JSON_parse ev c)).
Proof.
  intros H. unfold LogStream.step.
  pose proof (dispatch_memo_ok ev (fst c) H) as Hd.
  destruct (LogStream.changed _ _); [| exact Hd].
  pose proof (proj1 (render_memo_ok _ (snd c) Hd)) as Hr.
  destruct (LogStream.render _ _) as [[v s] g']. exact Hr.
Qed.

Lemma mount_memo_ok (g : Rng) : memo_ok (fst (LogStream.mount g)).
Proof.
  unfold LogStream.mount.
  assert (H0 : memo_ok LogStream.initial) by (repeat split).
  pose proof (proj1 (render_memo_ok _ g H0)) as Hr.
  destruct (LogStream.render _ _) as [[v s] g']. exact Hr.
Qed.

Lemma run_memo_ok (evs : list ESEvent) (g : Rng) :
  memo_ok (fst (LogStream.run JSON_parse evs g)).
Proof.
  unfold LogStream.run, LogStream.run_from.
  generalize (mount_memo_ok g). generalize (LogStream.mount g).
  induction evs as [| ev evs IH]; intros c Hc; [exact Hc |].
  simpl. apply IH, step_memo_ok, Hc.
Qed.

(** C9. Whatever events the component has handled and whatever the random
    generator has produced, the aggregates that a render shows are the
    values of [stats], [endpoints] and [threatLevel] on the current window;
    so two histories that end with the same window show the same
    aggregates, for any two generators. *)
Theorem aggregates_depend_on_window_only
    (evs1 evs2 : list ESEvent) (g1 g2 r1 r2 : Rng) :
  let st1 := fst (LogStream.run JSON_parse evs1 g1) in
  let st2 := fst (LogStream.run JSON_parse evs2 g2) in
  LogStream.aggregates (fst (fst (LogStream.render st1 r1)))
  = recomputed (LogStream.logs st1)
  /\ (LogStream.logs st1 = LogStream.logs st2 ->
      LogStream.aggregates (fst (fst (LogStream.render st1 r1)))
      = LogStream.aggregates (fst (fst (LogStream.render st2 r2)))).
Proof.
  intros st1 st2.
  pose proof (render_aggregates st1 r1 (run_memo_ok evs1 g1)) as H1.
  pose proof (render_aggregates st2 r2 (run_memo_ok evs2 g2)) as H2.
  split; [exact H1 |]. intros Heq. rewrite H1, H2, Heq. reflexivity.
Qed.

End Memo.

(** ** The relay: sessions do not interfere *)

Section RelayFacts.

Import Relay.

Lemma step_target_next_id (ev : Event) (id : nat) (st : State) :
  target ev = Some id ->
  next_id (step ev st) = next_id st /\ axios_calls (step ev st) = axios_calls st.
Proof.
  intros Ht. unfold step. rewrite Ht.
  destruct (sessions st !! id) as [s |]; [| split; reflexivity].
  destruct (deliver id ev s) as [[s' lines] |]; split; reflexivity.
Qed.

(** An event changes nothing but the session it is delivered to. *)
Lemma step_other (ev : Event) (b a : nat) (st : State) :
  target ev = Some b -> a <> b ->
  sessions (step ev st) !! a = sessions st !! a.
Proof.
  intros Ht Hab. unfold step. rewrite Ht.
  destruct (sessions st !! b) as [s |]; [| reflexivity].
  destruct (deliver b ev s) as [[s' lines] |]; [| reflexivity].
  simpl. apply lookup_insert_ne. congruence.
Qed.



Lemma run_app (evs1 evs2 : list Event) (st : State) :
  run (evs1 ++ evs2) st = run evs2 (run evs1 st).
Proof. unfold run. apply fold_left_app. Qed.


End RelayFacts.

(** ** The relay: one upstream connection for each subscriber *)

Section RelayCounting.

Import Relay.

Lemma step_inv (ev : Event) (st : State) :
  relay_inv st ->
  relay_inv (step ev st)
  /\ next_id (step ev st) = next_id st + (if is_request ev then 1 else 0).
Proof.
  intros (Hfresh & Hsize & Hcalls).
  destruct (target ev) as [id |] eqn:Ht.
  - assert (Hreq : is_request ev = false) by (destruct ev; [discriminate Ht | ..]; reflexivity).
    rewrite Hreq, Nat.add_0_r.
    destruct (step_target_next_id ev id st Ht) as [Hn Hc].
    split; [| exact Hn].
    unfold relay_inv. rewrite Hn, Hc. split; [| split; [| exact Hcalls]].
    + intros a Ha.
      destruct (decide (a = id)) as [-> | Hne].
      * unfold step. rewrite Ht, (Hfresh id Ha). now apply Hfresh.
      * rewrite (step_other ev id a st Ht Hne). now apply Hfresh.
    + unfold step. rewrite Ht.
      destruct (sessions st !! id) as [s |] eqn:E; [| exact Hsize].
      destruct (deliver id ev s) as [[s' lines] |]; [| exact Hsize].
      simpl. rewrite map_size_insert_Some by eauto. exact Hsize.
  - assert (Hreq : ev = Request) by (destruct ev; try discriminate Ht; reflexivity).
    subst ev. unfold step. simpl. split; [| lia].
    unfold relay_inv. simpl. split; [| split; [| lia]].
    + intros a Ha. rewrite lookup_insert_ne by lia. apply Hfresh. lia.
    + rewrite map_size_insert_None by (apply Hfresh; lia). lia.
Qed.

Lemma count_requests_cons (ev : Event) (evs : list Event) :
  count_requests (ev :: evs) = (if is_request ev then 1 else 0) + count_requests evs.
Proof. unfold count_requests. simpl. now destruct (is_request ev). Qed.

Lemma run_inv (evs : list Event) (st : State) :
  relay_inv st ->
  relay_inv (run evs st)
  /\ next_id (run evs st) = next_id st + count_requests evs.
Proof.
  revert st. induction evs as [| ev evs IH]; intros st H.
  - simpl. split; [exact H | unfold count_requests; simpl; lia].
  - simpl. destruct (step_inv ev st H) as [Hi Hn].
    destruct (IH _ Hi) as [Hi' Hn'].
    split; [exact Hi' |]. rewrite Hn', Hn, count_requests_cons. lia.
Qed.

Lemma initial_inv : relay_inv initial.
Proof.
  unfold relay_inv. simpl. split; [intros; apply lookup_empty |].
  split; [apply map_size_empty | reflexivity].
Qed.

Lemma live_upstreams_le (st : State) : live_upstreams st <= size (sessions st).
Proof.
  unfold live_upstreams. rewrite <- length_map_to_list. apply filter_length_le.
Qed.

(** C4, where it fails. Two dashboards have requested the one log stream and
    both connections to Flask are streaming: the relay holds two upstream
    connections, and a chunk that arrives on the first is written to the
    first response only. *)
Lemma one_upstream_per_request_not_shared :
  let st := run [Request; AxiosResolved 0; Request; AxiosResolved 1;
                 UpstreamData 0 "chunk"] initial in
  axios_calls st = 2
  /\ live_upstreams st = 2
  /\ received st 0 = ["chunk"%string]
  /\ received st 1 = [].
Proof. vm_compute. repeat split. Qed.

(** C4, as the code has it. The relay opens one upstream connection for
    each subscriber request: after any events the number of [axios] calls
    and the number of sessions both equal the number of requests, no more
    upstream streams are live than there are sessions, and a chunk that
    arrives on the upstream of one session is written to no other
    session's response. *)
Theorem one_upstream_per_subscriber (evs : list Event) :
  let st := run evs initial in
  axios_calls st = count_requests evs
  /\ size (sessions st) = count_requests evs
  /\ live_upstreams st <= count_requests evs
  /\ (forall id chunk a, a <> id ->
        received (step (UpstreamData id chunk) st) a = received st a).
Proof.
  intros st.
  destruct (run_inv evs initial initial_inv) as [(Hfresh & Hsize & Hcalls) Hn].
  fold st in Hfresh, Hsize, Hcalls, Hn. simpl in Hn.
  split; [lia |]. split; [lia |].
  split; [pose proof (live_upstreams_le st); lia |].
  intros id chunk a Ha. unfold received.
  now rewrite (step_other (UpstreamData id chunk) id a st eq_refl Ha).
Qed.

Lemma one_upstream_per_subscriber_witness :
  1 <> 0
  /\ axios_calls (run [Request; AxiosResolved 0; Request; AxiosResolved 1] initial) = 2
  /\ received (step (UpstreamData 0 "chunk")
                 (run [Request; AxiosResolved 0; Request; AxiosResolved 1] initial)) 1
     = received (run [Request; AxiosResolved 0; Request; AxiosResolved 1] initial) 1.
Proof.
  assert (H : 1 <> 0) by discriminate.
  pose proof (one_upstream_per_subscriber
                [Request; AxiosResolved 0; Request; AxiosResolved 1]) as T.
  cbv zeta in T. destruct T as (Hc & _ & _ & Hd).
  split; [exact H |]. split; [exact Hc |]. exact (Hd 0 "chunk"%string 1 H).
Defined.

End RelayCounting.

(** ** The relay: the end of the upstream stream *)

Section RelayEnd.

Import Relay.

(** Once the upstream of a session has ended, only the client's own
    disconnect changes the session. *)
Lemma ended_session_step (ev : Event) (st : State) (id : nat) (s : Session) :
  sessions st !! id = Some s -> upstream s = Ended -> id < next_id st ->
  ev <> ClientClose id ->
  sessions (step ev st) !! id = Some s /\ id < next_id (step ev st).
Proof.
  intros Hs Hu Hid Hev.
  destruct (target ev) as [id' |] eqn:Ht.
  - rewrite (proj1 (step_target_next_id ev id' st Ht)). split; [| exact Hid].
    destruct (decide (id = id')) as [<- | Hne].
    + unfold step. rewrite Ht, Hs.
      assert (Hd : deliver id ev s = None).
      { destruct ev; simpl in *; try injection Ht as ->;
          rewrite ?Hu, ?Bool.andb_false_r; try reflexivity; congruence. }
      now rewrite Hd.
    + now rewrite (step_other ev id' id st Ht Hne).
  - unfold step. rewrite Ht. simpl. split; [| lia].
    rewrite lookup_insert_ne by lia. exact Hs.
Qed.

Lemma ended_session_run (evs : list Event) (st : State) (id : nat) (s : Session) :
  sessions st !! id = Some s -> upstream s = Ended -> id < next_id st ->
  (forall ev, In ev evs -> ev <> ClientClose id) ->
  sessions (run evs st) !! id = Some s.
Proof.
  revert st. induction evs as [| ev evs IH]; intros st Hs Hu Hid Hevs; [exact Hs |].
  simpl.
  destruct (ended_session_step ev st id s Hs Hu Hid (Hevs ev (or_introl eq_refl)))
    as [Hs' Hid'].
  apply IH; try assumption. intros ev' Hin. apply Hevs. now right.
Qed.

(** C5, on the code. A subscriber is streaming, a chunk is relayed, and the
    Flask stream ends normally. No listener is installed for ['end']: the
    response stays open although its upstream is gone, and it stays open
    whatever happens afterwards, until the client itself disconnects. On
    an upstream ['error'] instead, the sibling listener does end the
    response. *)
Theorem upstream_end_leaves_response_open :
  let streaming := [Request; AxiosResolved 0; UpstreamData 0 "chunk"] in
  let st := run (streaming ++ [UpstreamEnd 0]) initial in
  (exists s, sessions st !! 0 = Some s
             /\ upstream s = Ended /\ res s = Writable
             /\ res_body s = ["chunk"%string])
  /\ (forall evs, (forall ev, In ev evs -> ev <> ClientClose 0) ->
        exists s, sessions (run evs st) !! 0 = Some s
                  /\ upstream s = Ended /\ res s = Writable)
  /\ (exists s, sessions (run (streaming ++ [UpstreamError 0 "reset"]) initial) !! 0
                = Some s
                /\ upstream s = Errored /\ res s = Finished).
Proof.
  cbv zeta.
  set (s := {| upstream := Ended; listening := true; res := Writable;
               res_status := 200; res_body := ["chunk"%string];
               span_ended := false; span_exceptions := [] |}).
  assert (Hs : sessions (run ([Request; AxiosResolved 0; UpstreamData 0 "chunk"]
                                ++ [UpstreamEnd 0]) initial) !! 0 = Some s)
    by (vm_compute; reflexivity).
  split; [exists s; repeat split; exact Hs |]. split.
  - intros evs Hevs. exists s. split; [| split; reflexivity].
    apply ended_session_run; [exact Hs | reflexivity | vm_compute; lia | exact Hevs].
  - eexists. split; [vm_compute; reflexivity | split; reflexivity].
Qed.

Lemma upstream_end_leaves_response_open_witness :
  (forall ev, In ev [UpstreamData 0 "late"; UpstreamEnd 0; Request] ->
              ev <> ClientClose 0)
  /\ exists s,
       sessions (run [UpstreamData 0 "late"; UpstreamEnd 0; Request]
                   (run ([Request; AxiosResolved 0; UpstreamData 0 "chunk"]
                           ++ [UpstreamEnd 0]) initial)) !! 0 = Some s
       /\ upstream s = Ended /\ res s = Writable.
Proof.
  assert (H : forall ev, In ev [UpstreamData 0 "late"; UpstreamEnd 0; Request] ->
                         ev <> ClientClose 0).
  { intros ev [<- | [<- | [<- | []]]]; discriminate. }
  split; [exact H |].
  exact (proj1 (proj2 upstream_end_leaves_response_open) _ H).
Defined.

End RelayEnd.

(** ** Instances *)


Lemma aggregates_depend_on_window_only_witness :
  let st1 := fst (LogStream.run one_message_parser [ESOpen; ESMessage "event"] constant_rng) in
  let st2 := fst (LogStream.run one_message_parser
                    [ESMessage "<html>"; ESMessage "event"] quarter_rng) in
  LogStream.logs st1 = LogStream.logs st2
  /\ LogStream.view_anomaly_line (fst (fst (LogStream.render st1 constant_rng)))
     <> LogStream.view_anomaly_line (fst (fst (LogStream.render st2 quarter_rng)))
  /\ LogStream.aggregates (fst (fst (LogStream.render st1 constant_rng)))
     = LogStream.aggregates (fst (fst (LogStream.render st2 quarter_rng))).
Proof.
  cbv zeta.
  assert (H : LogStream.logs
                (fst (LogStream.run one_message_parser [ESOpen; ESMessage "event"] constant_rng))
              = LogStream.logs
                  (fst (LogStream.run one_message_parser
                          [ESMessage "<html>"; ESMessage "event"] quarter_rng)))
    by reflexivity.
  split; [exact H |]. split; [vm_compute; discriminate |].
  exact (proj2 (aggregates_depend_on_window_only one_message_parser
                  [ESOpen; ESMessage "event"] [ESMessage "<html>"; ESMessage "event"]
                  constant_rng quarter_rng constant_rng quarter_rng) H).
Defined.

(* ===================================================================== *)
(** * Part III: further properties of the code                            *)
(* ===================================================================== *)

(** ** The relay, one session at a time *)

Section RelaySessions.

Import Relay.

(** A session that exists is not replaced by a later request, and an event
    for another session leaves it alone. *)
Lemma step_keeps_session (ev : Event) (st : State) (id : nat) (s : Session) :
  sessions st !! id = Some s -> id < next_id st ->
  target ev <> Some id ->
  sessions (step ev st) !! id = Some s /\ id < next_id (step ev st).
Proof.
  intros Hs Hid Ht. destruct (target ev) as [id' |] eqn:E.
  - rewrite (proj1 (step_target_next_id ev id' st E)). split; [| exact Hid].
    rewrite (step_other ev id' id st E); [exact Hs | congruence].
  - unfold step. rewrite E. simpl. split; [| lia].
    rewrite lookup_insert_ne by lia. exact Hs.
Qed.

Lemma run_keeps_session (evs : list Event) (st : State) (id : nat) (s : Session) :
  sessions st !! id = Some s -> id < next_id st ->
  none_for id evs ->
  sessions (run evs st) !! id = Some s /\ id < next_id (run evs st).
Proof.
  revert st. induction evs as [| ev evs IH]; intros st Hs Hid Hn; [now split |].
  simpl.
  destruct (step_keeps_session ev st id s Hs Hid (Hn ev (or_introl eq_refl)))
    as [Hs' Hid'].
  apply IH; try assumption. intros ev' Hin. apply Hn. now right.
Qed.

(** X1. While a subscriber is streaming, the chunks of its upstream are
    written to its response verbatim and in the order they arrive, whatever
    happens to other sessions in between. *)
Theorem chunks_relayed_in_order
    (evs : list Event) (st : State) (id : nat) (s : Session) :
  sessions st !! id = Some s ->
  listening s = true -> upstream s = Live -> res s = Writable ->
  id < next_id st ->
  only_chunks_for id evs ->
  received (run evs st) id = res_body s ++ chunks_for id evs.
Proof.
  revert st s. induction evs as [| ev evs IH]; intros st s Hs Hl Hu Hr Hid Hev.
  - simpl. unfold received. rewrite Hs. now rewrite app_nil_r.
  - simpl.
    assert (Hrest : only_chunks_for id evs)
      by (intros ev' Hin; apply Hev; now right).
    destruct (target ev) as [id' |] eqn:Ht.
    + destruct (decide (id' = id)) as [-> | Hne].
      * destruct (Hev ev (or_introl eq_refl) Ht) as [chunk ->].
        assert (Hstep : sessions (step (UpstreamData id chunk) st) !! id
                        = Some (res_write chunk s)).
        { unfold step. simpl. rewrite Hs. simpl. rewrite Hl, Hu. simpl.
          apply lookup_insert_eq. }
        rewrite (IH _ (res_write chunk s) Hstep); try assumption.
        -- unfold res_write. rewrite Hr. simpl. rewrite Nat.eqb_refl.
           now rewrite <- app_assoc.
        -- unfold res_write. now rewrite Hr.
        -- unfold res_write. now rewrite Hr.
        -- unfold res_write. now rewrite Hr.
        -- now rewrite (proj1 (step_target_next_id (UpstreamData id chunk) id st eq_refl)).
      * assert (Hnot : target ev <> Some id) by congruence.
        destruct (step_keeps_session ev st id s Hs Hid Hnot) as [Hs' Hid'].
        rewrite (IH _ s Hs'); try assumption. f_equal.
        destruct ev; simpl in *; try reflexivity.
        injection Ht as ->. apply Nat.eqb_neq in Hne. now rewrite Hne.
    + assert (Hnot : target ev <> Some id) by congruence.
      destruct (step_keeps_session ev st id s Hs Hid Hnot) as [Hs' Hid'].
      rewrite (IH _ s Hs'); try assumption.
      destruct ev; simpl in *; try discriminate Ht. reflexivity.
Qed.

End RelaySessions.

Section RelayLifecycle.

Import Relay.

(** X2. A subscriber that attaches gets a fresh session: its response is
    open and empty, so nothing relayed earlier is replayed to it, its own
    upstream request is pending, and every session that existed before is
    left exactly as it was. *)
Theorem new_subscriber_starts_empty (evs : list Event) :
  let st := run evs initial in
  let id := next_id st in
  sessions st !! id = None
  /\ sessions (step Request st) !! id = Some new_session
  /\ received (step Request st) id = []
  /\ axios_calls (step Request st) = S (axios_calls st)
  /\ (forall a, a <> id -> sessions (step Request st) !! a = sessions st !! a).
Proof.
  intros st id.
  destruct (run_inv evs initial initial_inv) as [(Hfresh & _ & _) _].
  fold st in Hfresh.
  assert (Hnew : sessions (step Request st) !! id = Some new_session)
    by (unfold step; simpl; apply lookup_insert_eq).
  split; [apply Hfresh; subst id; lia |]. split; [exact Hnew |].
  split; [unfold received; now rewrite Hnew |]. split; [reflexivity |].
  intros a Ha. unfold step. simpl. apply lookup_insert_ne.
  intros E. apply Ha. now rewrite <- E.
Qed.

Lemma deliver_not_writable (id : nat) (ev : Event) (s s' : Session)
    (lines : list LogLine) :
  res s <> Writable -> deliver id ev s = Some (s', lines) ->
  res_body s' = res_body s /\ res s' <> Writable.
Proof.
  intros Hr Hd.
  assert (Hw : is_writable (res s) = false) by (destruct (res s); simpl; congruence).
  destruct ev; simpl in Hd; try discriminate Hd.
  - destruct (upstream s); try discriminate Hd. injection Hd as <- _. now split.
  - destruct (upstream s); try discriminate Hd. injection Hd as <- _.
    unfold res_status_send. simpl. rewrite Hw. simpl. now split.
  - destruct (listening s && is_live (upstream s)); [| discriminate Hd].
    injection Hd as <- _. unfold res_write. rewrite Hw. now split.
  - destruct (listening s && is_live (upstream s)); [| discriminate Hd].
    injection Hd as <- _. unfold res_end. simpl. rewrite Hw. simpl. now split.
  - destruct (listening s && is_live (upstream s)); [| discriminate Hd].
    injection Hd as <- _. now split.
  - destruct (res s) eqn:E; try congruence; try discriminate Hd.
    destruct (listening s); injection Hd as <- _; simpl; split;
      (reflexivity || discriminate).
Qed.

Lemma step_not_writable (ev : Event) (st : State) (id : nat) (s : Session) :
  sessions st !! id = Some s -> res s <> Writable -> id < next_id st ->
  exists s', sessions (step ev st) !! id = Some s'
             /\ res_body s' = res_body s /\ res s' <> Writable
             /\ id < next_id (step ev st).
Proof.
  intros Hs Hr Hid.
  destruct (decide (target ev = Some id)) as [Ht | Ht].
  - rewrite (proj1 (step_target_next_id ev id st Ht)).
    unfold step. rewrite Ht, Hs.
    destruct (deliver id ev s) as [[s' lines] |] eqn:Hd.
    + destruct (deliver_not_writable id ev s s' lines Hr Hd) as [Hb Hr'].
      exists s'. simpl. rewrite lookup_insert_eq. now repeat split.
    + exists s. now repeat split.
  - destruct (step_keeps_session ev st id s Hs Hid Ht) as [Hs' Hid'].
    exists s. now repeat split.
Qed.

(** X3. Once the response of a subscriber is finished or its client is
    gone, nothing is ever written to it again and it never reopens,
    whatever events follow. *)
Theorem closed_response_never_written
    (evs : list Event) (st : State) (id : nat) (s : Session) :
  sessions st !! id = Some s -> res s <> Writable -> id < next_id st ->
  exists s', sessions (run evs st) !! id = Some s'
             /\ res_body s' = res_body s /\ res s' <> Writable.
Proof.
  revert st s. induction evs as [| ev evs IH]; intros st s Hs Hr Hid.
  - exists s. now repeat split.
  - simpl.
    destruct (step_not_writable ev st id s Hs Hr Hid) as (s1 & Hs1 & Hb1 & Hr1 & Hid1).
    destruct (IH _ s1 Hs1 Hr1 Hid1) as (s' & Hs' & Hb' & Hr').
    exists s'. repeat split; [assumption | congruence | assumption].
Qed.

(** X4. When the upstream of a streaming subscriber fails, its response is
    ended with exactly the chunks relayed so far, the error is recorded on
    the span and logged with the request id, the span is ended, and no
    later event writes to the response. *)
Theorem upstream_error_ends_response
    (evs : list Event) (st : State) (id : nat) (s : Session) (message : string) :
  sessions st !! id = Some s ->
  listening s = true -> upstream s = Live -> res s = Writable ->
  id < next_id st ->
  let st1 := step (UpstreamError id message) st in
  (exists s1, sessions st1 !! id = Some s1
              /\ res s1 = Finished /\ upstream s1 = Errored
              /\ res_body s1 = res_body s
              /\ span_ended s1 = true
              /\ span_exceptions s1 = span_exceptions s ++ [message])
  /\ logger st1 = logger st ++ [Error "Error in log stream" id message]
  /\ exists s', sessions (run evs st1) !! id = Some s'
                /\ res_body s' = res_body s /\ res s' <> Writable.
Proof.
  intros Hs Hl Hu Hr Hid st1.
  assert (Hst1 : st1 = {| sessions :=
                            <[id := res_end (span_end (span_recordException message
                                                         (set_upstream Errored s)))]>
                              (sessions st);
                          next_id := next_id st;
                          axios_calls := axios_calls st;
                          logger := logger st
                                    ++ [Error "Error in log stream" id message] |}).
  { subst st1. unfold step. simpl. rewrite Hs. simpl. now rewrite Hl, Hu. }
  assert (Hs1 : sessions st1 !! id
                = Some (res_end (span_end (span_recordException message
                                             (set_upstream Errored s)))))
    by (rewrite Hst1; simpl; apply lookup_insert_eq).
  split; [| split].
  - eexists. split; [exact Hs1 |]. unfold res_end. simpl. rewrite Hr. simpl.
    now repeat split.
  - now rewrite Hst1.
  - assert (Hnw : res (res_end (span_end (span_recordException message
                                            (set_upstream Errored s)))) <> Writable)
      by (unfold res_end; simpl; rewrite Hr; simpl; discriminate).
    assert (Hid1 : id < next_id st1) by now rewrite Hst1.
    destruct (closed_response_never_written evs st1 id _ Hs1 Hnw Hid1)
      as (s' & Hs' & Hb' & Hr').
    exists s'. split; [exact Hs' |]. split; [| exact Hr'].
    rewrite Hb'. unfold res_end. simpl. now rewrite Hr.
Qed.

End RelayLifecycle.

Section RelayEdges.

Import Relay.

(** X5. When the Flask stream cannot be reached, the subscriber is answered
    with status 500 and the text [Error connecting to log stream], its
    response is finished, the failure is recorded on the span, the span is
    ended and the failure is logged, whatever happened to other sessions
    while the connection attempt was pending. *)
Theorem unreachable_upstream_answers_500
    (st : State) (evs : list Event) (message : string) :
  let id := next_id st in
  none_for id evs ->
  let final := run (Request :: evs ++ [AxiosRejected id message]) st in
  (exists s, sessions final !! id = Some s
             /\ res_status s = 500
             /\ res_body s = ["Error connecting to log stream"%string]
             /\ res s = Finished /\ upstream s = Unreachable
             /\ span_ended s = true /\ span_exceptions s = [message])
  /\ In (Error "Failed to connect to Flask log stream" id message) (logger final).
Proof.
  intros id Hnone final.
  assert (H0 : sessions (step Request st) !! id = Some new_session)
    by (unfold step; simpl; apply lookup_insert_eq).
  assert (Hid : id < next_id (step Request st)) by (unfold step; simpl; lia).
  destruct (run_keeps_session evs _ id new_session H0 Hid Hnone) as [H1 _].
  assert (Hfinal : final = step (AxiosRejected id message) (run evs (step Request st))).
  { subst final. change (Request :: evs ++ [AxiosRejected id message])
      with ([Request] ++ evs ++ [AxiosRejected id message]).
    now rewrite !run_app. }
  rewrite Hfinal. unfold step at 1 3. simpl. rewrite H1. simpl. split.
  - eexists. split; [apply lookup_insert_eq |]. now repeat split.
  - apply in_or_app. right. now left.
Qed.

Lemma orphan_step (ev : Event) (st : State) (id : nat) (s : Session) :
  sessions st !! id = Some s ->
  listening s = true -> upstream s = Live -> res s = Disconnected ->
  id < next_id st ->
  ev <> UpstreamEnd id -> (forall message, ev <> UpstreamError id message) ->
  sessions (step ev st) !! id = Some s /\ id < next_id (step ev st).
Proof.
  intros Hs Hl Hu Hr Hid Hend Herr.
  destruct (decide (target ev = Some id)) as [Ht | Ht].
  - rewrite (proj1 (step_target_next_id ev id st Ht)). split; [| exact Hid].
    unfold step. rewrite Ht, Hs.
    destruct ev; simpl in Ht; try discriminate Ht; injection Ht as ->; simpl;
      rewrite ?Hu, ?Hl, ?Hr; simpl; try exact Hs.
    + unfold res_write. rewrite Hr. simpl. rewrite lookup_insert_eq. reflexivity.
    + exfalso. now apply (Herr message).
    + exfalso. now apply Hend.
  - now apply step_keeps_session.
Qed.

(** X6. A client that disconnects while its upstream request is still
    pending is not noticed: the disconnect listener is installed only once
    the request has settled. When the upstream then connects it is never
    destroyed by the relay. It stays live for as long as it neither ends nor
    fails by itself, and its chunks are dropped. *)
Theorem early_disconnect_keeps_upstream_open (st : State) (evs : list Event) :
  let id := next_id st in
  upstream_goes_on id evs ->
  exists s,
    sessions (run (Request :: ClientClose id :: AxiosResolved id :: evs) st) !! id
    = Some s
    /\ upstream s = Live /\ res s = Disconnected /\ res_body s = [].
Proof.
  intros id Hgo. simpl.
  set (s := {| upstream := Live; listening := true; res := Disconnected;
               res_status := 200; res_body := [];
               span_ended := false; span_exceptions := [] |}).
  set (st3 := step (AxiosResolved id) (step (ClientClose id) (step Request st))).
  assert (Hs : sessions st3 !! id = Some s).
  { subst st3. unfold step. simpl. rewrite lookup_insert_eq. simpl.
    rewrite lookup_insert_eq. simpl. now rewrite lookup_insert_eq. }
  assert (Hid : id < next_id st3).
  { subst st3. unfold step. simpl. rewrite lookup_insert_eq. simpl.
    rewrite lookup_insert_eq. simpl. lia. }
  exists s. split; [| now repeat split].
  clearbody st3. revert st3 Hs Hid.
  induction evs as [| ev evs IH]; intros st3 Hs Hid; [exact Hs |].
  simpl. destruct (Hgo ev (or_introl eq_refl)) as [Hend Herr].
  destruct (orphan_step ev st3 id s Hs eq_refl eq_refl eq_refl Hid Hend Herr)
    as [Hs' Hid'].
  apply IH; try assumption. intros ev' Hin. apply Hgo. now right.
Qed.

End RelayEdges.

(** ** The component as a state machine *)

Section Component.

Variable JSON_parse : string -> option Log.

(** A render changes the memo cells only. *)
Lemma render_keeps_state (st : LogStream.State) (g : Rng) :
  let st' := snd (fst (LogStream.render st g)) in
  LogStream.logs st' = LogStream.logs st
  /\ LogStream.connected st' = LogStream.connected st
  /\ LogStream.readyState st' = LogStream.readyState st
  /\ LogStream.console st' = LogStream.console st.
Proof.
  unfold LogStream.render.
  repeat match goal with
         | |- context [map_random ?f ?l ?g] => destruct (map_random f l g)
         end.
  simpl. repeat split.
Qed.

(** After a step the state cells are those that the listener left. *)
Lemma step_keeps_dispatch (ev : ESEvent) (c : LogStream.State * Rng) :
  let st' := fst (LogStream.step JSON_parse ev c) in
  let d := LogStream.dispatch JSON_parse ev (fst c) in
  LogStream.logs st' = LogStream.logs d
  /\ LogStream.connected st' = LogStream.connected d
  /\ LogStream.readyState st' = LogStream.readyState d
  /\ LogStream.console st' = LogStream.console d.
Proof.
  unfold LogStream.step. cbv zeta.
  destruct (LogStream.changed _ _); [| now repeat split].
  pose proof (render_keeps_state (LogStream.dispatch JSON_parse ev (fst c)) (snd c)) as H.
  cbv zeta in H.
  destruct (LogStream.render _ _) as [[v s'] g']. exact H.
Qed.

Lemma ingest_length (w : list Log) (x : Log) :
  length (ingest w x) = S (min 99 (length w)).
Proof. unfold ingest. rewrite length_app, slice_last_length. simpl. lia. Qed.

Lemma dispatch_window_bounded (ev : ESEvent) (st : LogStream.State) :
  length (LogStream.logs st) <= 100 ->
  length (LogStream.logs (LogStream.dispatch JSON_parse ev st)) <= 100.
Proof.
  intros H. unfold LogStream.dispatch.
  destruct (is_closed (LogStream.readyState st)); [exact H |].
  destruct ev as [| data |]; simpl; try exact H.
  unfold LogStream.onmessage. destruct (JSON_parse data); [| exact H].
  simpl. rewrite ingest_length. lia.
Qed.

Lemma run_from_snoc (evs : list ESEvent) (ev : ESEvent) (c : LogStream.State * Rng) :
  LogStream.run_from JSON_parse (evs ++ [ev]) c
  = LogStream.step JSON_parse ev (LogStream.run_from JSON_parse evs c).
Proof. unfold LogStream.run_from. now rewrite fold_left_app. Qed.

Lemma mount_state (g : Rng) :
  LogStream.logs (fst (LogStream.mount g)) = []
  /\ LogStream.connected (fst (LogStream.mount g)) = false
  /\ LogStream.readyState (fst (LogStream.mount g)) = CONNECTING
  /\ LogStream.console (fst (LogStream.mount g)) = [].
Proof.
  unfold LogStream.mount.
  pose proof (render_keeps_state LogStream.initial g) as H. cbv zeta in H.
  destruct (LogStream.render _ _) as [[v s'] g']. exact H.
Qed.

(** X7. Whatever arrives on the event source (messages that parse and
    messages that do not, opens, errors, in any order), the window of the
    component never holds more than a hundred events. *)
Theorem window_never_exceeds_capacity (evs : list ESEvent) (g : Rng) :
  length (LogStream.logs (fst (LogStream.run JSON_parse evs g))) <= 100.
Proof.
  unfold LogStream.run.
  induction evs as [| ev evs IH] using rev_ind.
  - change (LogStream.run_from JSON_parse [] (LogStream.mount g))
      with (LogStream.mount g).
    rewrite (proj1 (mount_state g)). simpl. lia.
  - rewrite run_from_snoc.
    rewrite (proj1 (step_keeps_dispatch ev _)).
    now apply dispatch_window_bounded.
Qed.

Lemma dispatch_connected_open (ev : ESEvent) (st : LogStream.State) :
  (LogStream.connected st = true -> LogStream.readyState st = OPEN) ->
  LogStream.connected (LogStream.dispatch JSON_parse ev st) = true ->
  LogStream.readyState (LogStream.dispatch JSON_parse ev st) = OPEN.
Proof.
  intros H. unfold LogStream.dispatch.
  destruct (is_closed (LogStream.readyState st)); [exact H |].
  destruct ev as [| data |]; simpl; try (intros; reflexivity || discriminate).
  unfold LogStream.onmessage. destruct (JSON_parse data); simpl; exact H.
Qed.

(** X8. The header shows [Connected] only while the event source is open:
    in every state the component can reach, [connected] implies that the
    source is in state OPEN (never while connecting, never after an
    error). *)
Theorem connected_only_when_open (evs : list ESEvent) (g : Rng) :
  let st := fst (LogStream.run JSON_parse evs g) in
  LogStream.connected st = true -> LogStream.readyState st = OPEN.
Proof.
  cbv zeta. unfold LogStream.run.
  induction evs as [| ev evs IH] using rev_ind.
  - change (LogStream.run_from JSON_parse [] (LogStream.mount g))
      with (LogStream.mount g).
    destruct (mount_state g) as (_ & Hc & _). rewrite Hc. discriminate.
  - rewrite run_from_snoc.
    destruct (step_keeps_dispatch ev (LogStream.run_from JSON_parse evs (LogStream.mount g)))
      as (_ & Hc & Hr & _).
    rewrite Hc, Hr. now apply dispatch_connected_open.
Qed.

Lemma closed_step (ev : ESEvent) (c : LogStream.State * Rng) :
  LogStream.readyState (fst c) = CLOSED ->
  LogStream.step JSON_parse ev c = c.
Proof.
  intros H. destruct c as [st g]. simpl in H.
  unfold LogStream.step, LogStream.dispatch. simpl. rewrite H. simpl.
  unfold LogStream.changed. now rewrite Nat.eqb_refl, Bool.eqb_reflx.
Qed.

Lemma closed_run (evs : list ESEvent) (c : LogStream.State * Rng) :
  LogStream.readyState (fst c) = CLOSED ->
  LogStream.run_from JSON_parse evs c = c.
Proof.
  intros H. induction evs as [| ev evs IH]; [reflexivity |].
  simpl. now rewrite closed_step.
Qed.

(** X9. The first error on the event source is final for [LogStream]: the
    listener logs it, shows [Disconnected] and closes the source, the window
    keeps what it held, and no later event (not even a well-formed message)
    changes the component or triggers a render again. Nothing reconnects. *)
Theorem error_closes_for_good (c : LogStream.State * Rng) (evs : list ESEvent) :
  LogStream.readyState (fst c) <> CLOSED ->
  let c' := LogStream.step JSON_parse ESError c in
  LogStream.readyState (fst c') = CLOSED
  /\ LogStream.connected (fst c') = false
  /\ LogStream.logs (fst c') = LogStream.logs (fst c)
  /\ LogStream.console (fst c')
     = LogStream.console (fst c) ++ ["Error occurred while streaming logs."%string]
  /\ LogStream.run_from JSON_parse evs c' = c'.
Proof.
  intros Hopen c'.
  assert (Hc : is_closed (LogStream.readyState (fst c)) = false)
    by (destruct (LogStream.readyState (fst c)); [reflexivity | reflexivity | congruence]).
  destruct (step_keeps_dispatch ESError c) as (Hl & Hcn & Hr & Hco).
  fold c' in Hl, Hcn, Hr, Hco.
  unfold LogStream.dispatch in Hl, Hcn, Hr, Hco. rewrite Hc in Hl, Hcn, Hr, Hco.
  simpl in Hl, Hcn, Hr, Hco.
  repeat split; try assumption.
  now apply closed_run.
Qed.

End Component.

(** ** The hook *)

Section Hook.

Variable JSON_parse : string -> option Log.

Lemma hook_message (data : string) (newLog : Log) (st : UseLogStream.State) :
  JSON_parse data = Some newLog ->
  UseLogStream.readyState st <> CLOSED ->
  UseLogStream.logs (UseLogStream.dispatch JSON_parse (ESMessage data) st)
  = UseLogStream.logs st ++ [newLog]
  /\ UseLogStream.readyState (UseLogStream.dispatch JSON_parse (ESMessage data) st)
     = UseLogStream.readyState st.
Proof.
  intros Hp Hopen. unfold UseLogStream.dispatch, UseLogStream.onmessage.
  rewrite Hp.
  destruct (UseLogStream.readyState st); simpl; try congruence; now split.
Qed.

(** X10. The [useLogStream] hook has no window: while its source is not
    closed, every well-formed message is appended, so after any run of them
    the hook holds everything it held before followed by all the events, in
    arrival order, and nothing is ever evicted. *)
Theorem hook_keeps_every_event
    (datas : list string) (events : list Log) (st : UseLogStream.State) :
  Forall2 (fun data ev => JSON_parse data = Some ev) datas events ->
  UseLogStream.readyState st <> CLOSED ->
  UseLogStream.logs (UseLogStream.run JSON_parse (map ESMessage datas) st)
  = UseLogStream.logs st ++ events
  /\ length (UseLogStream.logs (UseLogStream.run JSON_parse (map ESMessage datas) st))
     = length (UseLogStream.logs st) + length datas.
Proof.
  intros H. revert st.
  induction H as [| data ev datas events Hp Hrest IH]; intros st Hopen.
  - simpl. rewrite app_nil_r. split; [reflexivity | lia].
  - change (UseLogStream.run JSON_parse (map ESMessage (data :: datas)) st)
      with (UseLogStream.run JSON_parse (map ESMessage datas)
              (UseLogStream.dispatch JSON_parse (ESMessage data) st)).
    destruct (hook_message data ev st Hp Hopen) as [Hl Hr].
    destruct (IH (UseLogStream.dispatch JSON_parse (ESMessage data) st))
      as [IH1 IH2]; [congruence |].
    split.
    + rewrite IH1, Hl, <- app_assoc. reflexivity.
    + rewrite IH2, Hl, length_app. simpl. lia.
Qed.

Lemma hook_closed_run (evs : list ESEvent) (st : UseLogStream.State) :
  UseLogStream.readyState st = CLOSED ->
  UseLogStream.run JSON_parse evs st = st.
Proof.
  intros H. induction evs as [| ev evs IH]; [reflexivity |].
  change (UseLogStream.run JSON_parse (ev :: evs) st)
    with (UseLogStream.run JSON_parse evs (UseLogStream.dispatch JSON_parse ev st)).
  assert (Hd : UseLogStream.dispatch JSON_parse ev st = st)
    by (unfold UseLogStream.dispatch; now rewrite H).
  rewrite Hd. exact IH.
Qed.

(** X11. The first error on the event source is final for the hook as well:
    [error] is set to its fixed message, the source is closed, the events
    gathered so far are kept, and nothing that arrives later changes the
    hook's state. *)
Theorem hook_error_is_final (st : UseLogStream.State) (evs : list ESEvent) :
  UseLogStream.readyState st <> CLOSED ->
  let st' := UseLogStream.dispatch JSON_parse ESError st in
  UseLogStream.error st' = Some "Error connecting to log stream"%string
  /\ UseLogStream.readyState st' = CLOSED
  /\ UseLogStream.logs st' = UseLogStream.logs st
  /\ UseLogStream.run JSON_parse evs st' = st'.
Proof.
  intros Hopen st'.
  assert (Hst : st' = {| UseLogStream.logs := UseLogStream.logs st;
                         UseLogStream.error := Some "Error connecting to log stream"%string;
                         UseLogStream.loading := UseLogStream.loading st;
                         UseLogStream.readyState := CLOSED;
                         UseLogStream.console := UseLogStream.console st |}).
  { subst st'. unfold UseLogStream.dispatch.
    destruct (UseLogStream.readyState st); simpl; congruence. }
  rewrite Hst. repeat split. now apply hook_closed_run.
Qed.

End Hook.

(** ** The log table *)

Lemma rev_slice_last {A : Type} (k : nat) (l : list A) :
  rev (slice_last k l) = take k (rev l).
Proof. unfold slice_last. symmetry. apply firstn_rev. Qed.

(** X12. The log table lists the window newest first. When an event is
    ingested it becomes the first row and the rows shown before move down by
    one, the hundredth of them dropping off the table; the table never has
    more rows than the window has events. *)
Theorem table_newest_first (window : list Log) (newLog : Log) :
  table_rows (ingest window newLog) = newLog :: take 99 (table_rows window)
  /\ length (table_rows (ingest window newLog))
     = S (min 99 (length (table_rows window))).
Proof.
  unfold table_rows. split.
  - unfold ingest. rewrite rev_app_distr. simpl. f_equal. apply rev_slice_last.
  - rewrite !length_rev. apply ingest_length.
Qed.
